(** * Chroma Vision: the game engine of [src/App.tsx]

    A shallow embedding of the colour helpers, the level generator, the
    difficulty curve, the click handler and the one-second timer of the
    [App] component, followed by the properties of the specification.

    Number model.  JavaScript numbers are modelled by their mathematical
    values: [score], [timeLeft] and indices, which the program only ever
    moves by integer steps, are in [Z]; colour channels and the lightness
    difference, which may be fractional, are real numbers.  [Math.log2] is
    the real logarithm in base two and [Math.floor] the real floor.
    These definitions do not round; the lightness shift, where rounding
    decides whether a distance is exact, is written a second time over
    binary64 floats ([getTargetLightness64]).

    Randomness.  [Math.random()] is an injected source: [random n] is the
    value of the [n]-th call, and the code that draws from it is written in
    a small state monad over the number of calls made so far. *)

From Stdlib Require Import Reals ZArith List Bool Lia Lra.
From Stdlib Require String.
From Stdlib Require Import Floats.
Import ListNotations.
Import String.StringSyntax.
Delimit Scope string_scope with string.

Local Open Scope R_scope.

(** ** Types *)

(** [interface ColorHSL { h: number; s: number; l: number }] *)
Record ColorHSL : Type := mkColorHSL { h : R; s : R; l : R }.

(** A cell of a JavaScript array: [None] is a hole (an index that was never
    written), [Some c] a stored value. *)
Definition Cell : Type := option ColorHSL.

(** ** Constants *)

Definition GRID_SIZE : Z := 5.
Definition INITIAL_TIME : Z := 60.
Definition INITIAL_DIFF : R := 20.
Definition MIN_DIFF : R := 1.5.

(** ** The fragment of [Math] and of arrays that the component uses *)

Definition Math_floor (x : R) : Z := Zfloor x.
Definition Math_log2 (x : R) : R := ln x / ln 2.
Definition Math_max (x y : R) : R := Rmax x y.
Definition Math_min (x y : R) : R := Rmin x y.

(** [a[i] = v].  Inside the array the cell is replaced; at or past the end
    JavaScript grows the array, leaving holes in between; a negative index
    creates a property and leaves the elements alone. *)
Definition array_set (a : list Cell) (i : Z) (v : ColorHSL) : list Cell :=
  if (i <? 0)%Z then a
  else if (i <? Z.of_nat (length a))%Z
       then firstn (Z.to_nat i) a ++ Some v :: skipn (S (Z.to_nat i)) a
       else a ++ repeat None (Z.to_nat i - length a) ++ [Some v].

(** [a[i]], with [None] for a hole and for an index outside the array. *)
Definition array_get (a : list Cell) (i : Z) : Cell :=
  if (i <? 0)%Z then None
  else match nth_error a (Z.to_nat i) with
       | Some c => c
       | None => None
       end.

(** ** Component state: the [useState] cells of [App] *)

Record State : Type := mkState {
  score : Z;
  timeLeft : Z;
  isActive : bool;
  isGameOver : bool;
  grid : list Cell;
  targetIndex : Z;
  difficulty : R;
  lastDiff : R
}.

Definition setScore (v : Z) (st : State) : State :=
  mkState v (timeLeft st) (isActive st) (isGameOver st) (grid st)
          (targetIndex st) (difficulty st) (lastDiff st).
Definition setTimeLeft (v : Z) (st : State) : State :=
  mkState (score st) v (isActive st) (isGameOver st) (grid st)
          (targetIndex st) (difficulty st) (lastDiff st).
Definition setIsActive (v : bool) (st : State) : State :=
  mkState (score st) (timeLeft st) v (isGameOver st) (grid st)
          (targetIndex st) (difficulty st) (lastDiff st).
Definition setIsGameOver (v : bool) (st : State) : State :=
  mkState (score st) (timeLeft st) (isActive st) v (grid st)
          (targetIndex st) (difficulty st) (lastDiff st).
Definition setGrid (v : list Cell) (st : State) : State :=
  mkState (score st) (timeLeft st) (isActive st) (isGameOver st) v
          (targetIndex st) (difficulty st) (lastDiff st).
Definition setTargetIndex (v : Z) (st : State) : State :=
  mkState (score st) (timeLeft st) (isActive st) (isGameOver st) (grid st)
          v (difficulty st) (lastDiff st).
Definition setDifficulty (v : R) (st : State) : State :=
  mkState (score st) (timeLeft st) (isActive st) (isGameOver st) (grid st)
          (targetIndex st) v (lastDiff st).
Definition setLastDiff (v : R) (st : State) : State :=
  mkState (score st) (timeLeft st) (isActive st) (isGameOver st) (grid st)
          (targetIndex st) (difficulty st) v.

(** The state of the first render. *)
Definition initialState : State :=
  mkState 0 INITIAL_TIME false false [] (-1) INITIAL_DIFF 0.

(** The three screens of the render function: the start card when neither
    flag is set, the report when [isGameOver] is, the grid otherwise. *)
Inductive Activity : Type := idle | active | over.

Definition activityState (st : State) : Activity :=
  if negb (isActive st) && negb (isGameOver st) then idle
  else if isGameOver st then over
  else active.

(** ** The difficulty curve

    [Math.max(MIN_DIFF, INITIAL_DIFF - Math.log2(currentScore + 1) * 3.5)],
    the value bound to [newDiff] in [generateLevel]. *)
Definition newDiff (currentScore : Z) : R :=
  Math_max MIN_DIFF (INITIAL_DIFF - Math_log2 (IZR currentScore + 1) * 3.5).

(** ** The timer effect

    The effect keeps an interval alive exactly while
    [isActive && timeLeft > 0], and clears it otherwise. *)
Definition timerRunning (st : State) : bool :=
  isActive st && (0 <? timeLeft st)%Z.

(** What one firing of the interval does: the updater given to
    [setTimeLeft], with the two flag updates it performs at the end. *)
Definition timerCallback (st : State) : State :=
  if (timeLeft st <=? 1)%Z
  then setTimeLeft 0 (setIsGameOver true (setIsActive false st))
  else setTimeLeft (timeLeft st - 1) st.

(** One second passing: the interval fires if there is one. *)
Definition tick (st : State) : State :=
  if timerRunning st then timerCallback st else st.

(** [k] seconds passing with no other event in between. *)
Fixpoint ticks (k : nat) (st : State) : State :=
  match k with
  | O => st
  | S k' => ticks k' (tick st)
  end.

(** ** Code that draws random numbers *)

Section Engine.

(** [random n] is what the [n]-th call of [Math.random()] returns. *)
Variable random : nat -> R.

Definition Rand (A : Type) : Type := nat -> A * nat.

Definition ret {A : Type} (a : A) : Rand A := fun n => (a, n).

Definition bind {A B : Type} (m : Rand A) (f : A -> Rand B) : Rand B :=
  fun n => f (fst (m n)) (snd (m n)).

Local Notation "x <- m ;; k" := (bind m (fun x => k))
  (at level 61, m at next level, right associativity).

Definition Math_random : Rand R := fun n => (random n, S n).

(** [generateColor] *)
Definition generateColor : Rand ColorHSL :=
  r1 <- Math_random ;;
  r2 <- Math_random ;;
  r3 <- Math_random ;;
  ret {| h := IZR (Math_floor (r1 * 360));
         s := 40 + IZR (Math_floor (r2 * 40));
         l := 30 + IZR (Math_floor (r3 * 40)) |}.

(** [getTargetColor] *)
Definition getTargetColor (base : ColorHSL) (diff : R) : Rand ColorHSL :=
  r <- Math_random ;;
  let direction := if Rgt_dec r 0.5 then 1 else -1 in
  ret {| h := h base;
         s := s base;
         l := Math_max 0 (Math_min 100 (l base + diff * direction)) |}.

(** The body of [generateLevel] once [newDiff] is known: draw the base
    colour, fill the 25 cells with copies of it, draw the target index and
    overwrite that cell with the shifted colour. *)
Definition generateLevelWith (diff : R) (st : State) : Rand State :=
  baseColor <- generateColor ;;
  let st1 := setLastDiff diff (setDifficulty diff st) in
  let newGrid :=
    map (fun _ : unit => Some baseColor)
        (repeat tt (Z.to_nat (GRID_SIZE * GRID_SIZE))) in
  r <- Math_random ;;
  let targetIdx := Math_floor (r * IZR (GRID_SIZE * GRID_SIZE)) in
  target <- getTargetColor baseColor diff ;;
  ret (setTargetIndex targetIdx
         (setGrid (array_set newGrid targetIdx target) st1)).

(** [generateLevel] *)
Definition generateLevel (currentScore : Z) (st : State) : Rand State :=
  generateLevelWith (newDiff currentScore) st.

(** [startGame] *)
Definition startGame (st : State) : Rand State :=
  generateLevel 0
    (setIsGameOver false
       (setIsActive true (setTimeLeft INITIAL_TIME (setScore 0 st)))).

(** [handleBlockClick].  The confetti call on every tenth point draws on the
    screen only and is left out. *)
Definition handleBlockClick (index : Z) (st : State) : Rand State :=
  if negb (isActive st) || isGameOver st then ret st
  else if (index =? targetIndex st)%Z then
    let newScore := (score st + 1)%Z in
    generateLevel newScore (setScore newScore st)
  else ret (setTimeLeft (Z.max 0 (timeLeft st - 3)) st).

(** ** Sessions: sequences of commands *)

Inductive Command : Type :=
| CmdStart
| CmdTick
| CmdClick (index : Z).

Definition exec (c : Command) (st : State) : Rand State :=
  match c with
  | CmdStart => startGame st
  | CmdTick => ret (tick st)
  | CmdClick index => handleBlockClick index st
  end.

Fixpoint run (cs : list Command) (st : State) : Rand State :=
  match cs with
  | [] => ret st
  | c :: cs' => st' <- exec c st ;; run cs' st'
  end.

(** States the component can be in after some commands. *)
Definition reachable (st : State) : Prop :=
  exists cs n, fst (run cs initialState n) = st.

End Engine.

(** What every state of a session satisfies (see [reachable_wf]). *)
Definition wf (st : State) : Prop :=
  (0 <= score st)%Z /\
  (0 <= timeLeft st <= INITIAL_TIME)%Z /\
  (isActive st = true -> isGameOver st = false) /\
  (activityState st <> idle ->
   (0 <= targetIndex st < GRID_SIZE * GRID_SIZE)%Z /\
   length (grid st) = Z.to_nat (GRID_SIZE * GRID_SIZE)).

(** A random source that always answers [0], for concrete runs. *)
Definition zeroSource : nat -> R := fun _ => 0.

(** A source that answers [a], [b], [c] to the calls [n], [n+1], [n+2]. *)
Definition threeDraws (n : nat) (a b c : R) : nat -> R :=
  fun i => if Nat.eqb i n then a else if Nat.eqb i (S n) then b else c.

(** The level that [startGame] builds from [zeroSource]: base colour
    hsl(0, 40%, 30%), target at index 0, shifted down by 20. *)
Definition gridZero : list Cell :=
  Some (mkColorHSL 0 40 10) :: repeat (Some (mkColorHSL 0 40 30)) 24.

(** A session on that level with no point scored and [t] seconds left. *)
Definition sessionAt (t : Z) : State :=
  mkState 0 t true false gridZero 0 20 20.

(** ** What the render function derives from the state *)

(** The vision grade of the report:
    [score > 40 ? 'S' : score > 30 ? 'A' : score > 20 ? 'B' : 'C']. *)
Definition grade (sc : Z) : String.string :=
  if (40 <? sc)%Z then "S"%string
  else if (30 <? sc)%Z then "A"%string
  else if (20 <? sc)%Z then "B"%string
  else "C"%string.

(** The order of the grades, worst first. *)
Definition gradeRank (g : String.string) : nat :=
  if String.eqb g "S" then 3
  else if String.eqb g "A" then 2
  else if String.eqb g "B" then 1
  else 0.

(** The width of the difficulty bar, in percent:
    [(lastDiff / INITIAL_DIFF) * 100]. *)
Definition barWidth (st : State) : R := lastDiff st / INITIAL_DIFF * 100.

(** Whether [handleBlockClick index] calls [confetti]: the click passes the
    guard, hits the target, and [newScore % 10 === 0]. *)
Definition confettiFired (index : Z) (st : State) : bool :=
  if negb (isActive st) || isGameOver st then false
  else if (index =? targetIndex st)%Z
       then (Z.rem (score st + 1) 10 =? 0)%Z
       else false.

(** ** The level a started session shows

    Before the first start the state is the initial one.  Afterwards both
    difficulty cells hold the difference of the current score, a finished
    session has no time left, and the grid is one base colour with the
    target tile shifted in lightness by exactly that difference. *)
Definition levelInv (st : State) : Prop :=
  match activityState st with
  | idle => st = initialState
  | _ =>
    difficulty st = newDiff (score st) /\
    lastDiff st = newDiff (score st) /\
    (isGameOver st = true -> timeLeft st = 0%Z) /\
    exists base c : ColorHSL,
      30 <= l base <= 69 /\
      (forall j : Z, (0 <= j < 25)%Z -> j <> targetIndex st ->
         array_get (grid st) j = Some base) /\
      array_get (grid st) (targetIndex st) = Some c /\
      h c = h base /\ s c = s base /\
      (l c = l base + lastDiff st \/ l c = l base - lastDiff st)
  end.

(** ** The lightness shift in double precision

    JavaScript numbers are IEEE 754 doubles.  The three definitions below
    are line 106 of [getTargetColor] again, this time over the kernel's
    binary64 floats, so that the rounding of [base.l + diff * direction] can
    be computed. *)




(** * Properties *)

(** ** Arithmetic of the helpers *)

Lemma ln2_pos : 0 < ln 2.
Proof. rewrite <- ln_1. apply ln_increasing; lra. Qed.

Lemma log2_nonneg (x : R) : 1 <= x -> 0 <= Math_log2 x.
Proof.
  intros Hx. unfold Math_log2.
  assert (0 <= ln x).
  { destruct Hx as [Hlt | <-]; [|rewrite ln_1; lra].
    left. rewrite <- ln_1. apply ln_increasing; lra. }
  apply Rmult_le_pos; [assumption|].
  left. apply Rinv_0_lt_compat, ln2_pos.
Qed.

Lemma log2_le (x y : R) : 0 < x -> x <= y -> Math_log2 x <= Math_log2 y.
Proof.
  intros Hx [Hlt | ->]; [|lra].
  unfold Math_log2, Rdiv.
  apply Rmult_le_compat_r.
  - left. apply Rinv_0_lt_compat, ln2_pos.
  - left. now apply ln_increasing.
Qed.

Lemma log2_1 : Math_log2 1 = 0.
Proof. unfold Math_log2. rewrite ln_1. lra. Qed.

Lemma log2_2 : Math_log2 2 = 1.
Proof. unfold Math_log2. field. pose proof ln2_pos. lra. Qed.

(** ** The difficulty curve *)

Lemma newDiff_unfold (sc : Z) :
  newDiff sc = Rmax 1.5 (20 - 3.5 * Math_log2 (IZR sc + 1)).
Proof. unfold newDiff, Math_max, MIN_DIFF, INITIAL_DIFF. f_equal. lra. Qed.

Lemma newDiff_0 : newDiff 0 = 20.
Proof.
  rewrite newDiff_unfold.
  replace (IZR 0 + 1) with 1 by lra.
  rewrite log2_1. rewrite Rmax_right; lra.
Qed.

(** C4. For every integer score >= 0 the lightness difference of the next
    level is max(1.5, 20 - 3.5 * log2(score + 1)); it lies between
    MIN_DIFF = 1.5 and INITIAL_DIFF = 20, and at score 0 it is 20. *)
Theorem newDiff_bounds (sc : Z) :
  (0 <= sc)%Z ->
  newDiff sc = Rmax 1.5 (20 - 3.5 * Math_log2 (IZR sc + 1)) /\
  MIN_DIFF = 1.5 /\ INITIAL_DIFF = 20 /\
  MIN_DIFF <= newDiff sc <= INITIAL_DIFF /\
  newDiff 0 = 20.
Proof.
  intros Hsc.
  split; [apply newDiff_unfold|].
  split; [reflexivity|]. split; [reflexivity|].
  split.
  - rewrite newDiff_unfold. unfold MIN_DIFF, INITIAL_DIFF.
    assert (Hlog : 0 <= Math_log2 (IZR sc + 1)).
    { apply log2_nonneg. apply IZR_le in Hsc. lra. }
    split; [apply Rmax_l|].
    apply Rmax_lub; lra.
  - apply newDiff_0.
Qed.

Lemma newDiff_bounds_witness :
  (0 <= 1)%Z /\ MIN_DIFF <= newDiff 1 <= INITIAL_DIFF.
Proof.
  split; [lia|].
  apply (newDiff_bounds 1); lia.
Defined.

(** C5. The lightness difference never grows with the score: for integers
    score2 > score1 >= 0, newDiff score2 <= newDiff score1. *)
Theorem newDiff_monotone (score1 score2 : Z) :
  (0 <= score1)%Z -> (score1 < score2)%Z ->
  newDiff score2 <= newDiff score1.
Proof.
  intros H0 Hlt.
  rewrite !newDiff_unfold.
  assert (Hlog : Math_log2 (IZR score1 + 1) <= Math_log2 (IZR score2 + 1)).
  { apply IZR_le in H0. apply IZR_lt in Hlt. apply log2_le; lra. }
  apply Rmax_lub.
  - apply Rmax_l.
  - eapply Rle_trans; [|apply Rmax_r]. lra.
Qed.

Lemma newDiff_monotone_witness : newDiff 1 <= newDiff 0.
Proof. apply (newDiff_monotone 0 1); lia. Defined.

(** Scenario B of the specification: after the first point the difference
    is 16.5. *)
Lemma newDiff_1 : newDiff 1 = 16.5.
Proof.
  rewrite newDiff_unfold.
  replace (IZR 1 + 1) with 2 by lra.
  rewrite log2_2. rewrite Rmax_right; lra.
Qed.

(** From score 39 on the curve sits on its floor. *)
Lemma newDiff_floor (sc : Z) : (39 <= sc)%Z -> newDiff sc = MIN_DIFF.
Proof.
  intros Hsc. rewrite newDiff_unfold. unfold MIN_DIFF.
  apply Rmax_left.
  assert (H40 : Math_log2 40 <= Math_log2 (IZR sc + 1)).
  { apply IZR_le in Hsc. apply log2_le; lra. }
  assert (H32 : Math_log2 32 = 5).
  { unfold Math_log2. replace 32 with (2 ^ 5) by lra.
    rewrite ln_pow by lra. simpl INR. field. pose proof ln2_pos; lra. }
  assert (Hlow : 5.3 <= Math_log2 40); [|lra].
  (* 40 = 32 * 1.25 and ln 1.25 >= 0.3 * ln 2 because 1.25^10 >= 2^3 *)
  assert (H125 : 3 * ln 2 <= 10 * ln 1.25).
  { replace (3 * ln 2) with (ln (2 ^ 3)) by (rewrite ln_pow by lra; simpl INR; lra).
    replace (10 * ln 1.25) with (ln (1.25 ^ 10))
      by (rewrite ln_pow by lra; simpl INR; lra).
    assert (Hc : 2 ^ 3 <= 1.25 ^ 10) by lra.
    destruct Hc as [Hc | Hc]; [left; apply ln_increasing; lra | rewrite Hc; lra]. }
  unfold Math_log2 in *.
  replace 40 with (32 * 1.25) by lra.
  rewrite ln_mult by lra.
  pose proof ln2_pos as Hp.
  apply (Rmult_le_reg_r (ln 2)); [assumption|].
  replace ((ln 32 + ln 1.25) / ln 2 * ln 2) with (ln 32 + ln 1.25) by (field; lra).
  assert (ln 32 = 5 * ln 2).
  { apply (Rmult_eq_reg_r (/ ln 2)); [|apply Rinv_neq_0_compat; lra].
    replace (5 * ln 2 * / ln 2) with 5 by (field; lra).
    exact H32. }
  lra.
Qed.

(** ** Floors of scaled random numbers *)

Lemma floor_scaled_range (r : R) (N : Z) :
  0 <= r < 1 -> (0 < N)%Z -> (0 <= Math_floor (r * IZR N) < N)%Z.
Proof.
  intros [Hr0 Hr1] HN. unfold Math_floor.
  assert (HNr : 0 < IZR N) by now apply (IZR_lt 0).
  pose proof (Zfloor_bound (r * IZR N)) as [Hlo Hhi].
  split.
  - apply Zfloor_lub. simpl. nra.
  - apply lt_IZR. nra.
Qed.

(** [Math.floor(r * N)] is [k] exactly on the band [k/N <= r < (k+1)/N]:
    the bands of all [k] have the same width [1/N]. *)
Lemma floor_scaled_band (r : R) (N k : Z) :
  (0 < N)%Z ->
  Math_floor (r * IZR N) = k <-> IZR k / IZR N <= r < (IZR k + 1) / IZR N.
Proof.
  intros HN. unfold Math_floor.
  assert (HNr : 0 < IZR N) by now apply (IZR_lt 0).
  assert (Hinv : 0 < / IZR N) by now apply Rinv_0_lt_compat.
  assert (Hk : forall x, x / IZR N * IZR N = x) by (intros; field; lra).
  split.
  - intros <-. pose proof (Zfloor_bound (r * IZR N)) as [Hlo Hhi].
    split.
    + apply (Rmult_le_reg_r (IZR N)); [assumption|]. rewrite Hk. lra.
    + apply (Rmult_lt_reg_r (IZR N)); [assumption|]. rewrite Hk. lra.
  - intros [Hlo Hhi]. apply Zfloor_eq. split.
    + apply (Rmult_le_compat_r (IZR N)) in Hlo; [|lra]. rewrite Hk in Hlo. lra.
    + apply (Rmult_lt_compat_r (IZR N)) in Hhi; [|lra]. rewrite Hk in Hhi. lra.
Qed.

Lemma floor_zero (N : Z) : Math_floor (0 * IZR N) = 0%Z.
Proof. unfold Math_floor. rewrite Rmult_0_l. apply (ZfloorZ 0). Qed.

(** ** The colour helpers *)

Lemma generateColor_unfold (random : nat -> R) (n : nat) :
  generateColor random n =
  ({| h := IZR (Math_floor (random n * 360));
      s := 40 + IZR (Math_floor (random (S n) * 40));
      l := 30 + IZR (Math_floor (random (S (S n)) * 40)) |}, S (S (S n))).
Proof. reflexivity. Qed.

Lemma getTargetColor_unfold (random : nat -> R) (base : ColorHSL) (diff : R) (n : nat) :
  getTargetColor random base diff n =
  ({| h := h base; s := s base;
      l := Rmax 0 (Rmin 100
             (l base + diff * (if Rgt_dec (random n) 0.5 then 1 else -1))) |},
   S n).
Proof. reflexivity. Qed.

Lemma getTargetColor_lightness (random : nat -> R) (base : ColorHSL) (diff : R) (n : nat) :
  l (fst (getTargetColor random base diff n)) =
  if Rgt_dec (random n) 0.5
  then Rmax 0 (Rmin 100 (l base + diff))
  else Rmax 0 (Rmin 100 (l base - diff)).
Proof.
  rewrite getTargetColor_unfold. cbn [fst l].
  destruct (Rgt_dec (random n) 0.5); f_equal; f_equal; lra.
Qed.

(** C6. The shifted colour keeps the hue and the saturation of the base and
    has lightness clamp(base.l + diff, 0, 100) or clamp(base.l - diff, 0, 100),
    the sign being decided by one draw of the random source (plus when the
    draw exceeds 0.5). The clamped value is returned as it is: when the shift
    leaves [0,100] the lightness is the boundary, and the difference to the
    base is then smaller than diff. *)
Theorem getTargetColor_spec (random : nat -> R) (base : ColorHSL) (diff : R) (n : nat) :
  let c := fst (getTargetColor random base diff n) in
  h c = h base /\ s c = s base /\
  l c = (if Rgt_dec (random n) 0.5
         then Rmax 0 (Rmin 100 (l base + diff))
         else Rmax 0 (Rmin 100 (l base - diff))) /\
  (random n > 0.5 /\ 0 <= l base /\ 100 < l base + diff ->
   l c = 100 /\ l c - l base < diff) /\
  (~ random n > 0.5 /\ l base <= 100 /\ l base - diff < 0 ->
   l c = 0 /\ l base - l c < diff).
Proof.
  rewrite getTargetColor_unfold. cbn [fst h s l].
  split; [reflexivity|]. split; [reflexivity|].
  destruct (Rgt_dec (random n) 0.5) as [Hgt | Hle].
  - split; [f_equal; f_equal; lra|].
    split; [|intros [Hc _]; contradiction].
    intros (_ & Hb & Hover).
    replace (l base + diff * 1) with (l base + diff) by lra.
    rewrite Rmin_left by lra. rewrite Rmax_right by lra. lra.
  - split; [f_equal; f_equal; lra|].
    split; [intros [Hc _]; contradiction|].
    intros (_ & Hb & Hunder).
    replace (l base + diff * -1) with (l base - diff) by lra.
    rewrite Rmin_right by lra. rewrite Rmax_left by lra. lra.
Qed.

(** Both signs occur, and a base near the top is clamped to a difference
    smaller than the one asked for. *)
Example getTargetColor_up :
  l (fst (getTargetColor (fun _ => 0.75) (mkColorHSL 200 50 95) 20 0%nat)) = 100.
Proof.
  rewrite getTargetColor_unfold. cbn [fst l].
  destruct (Rgt_dec 0.75 0.5); [|lra].
  rewrite Rmin_left by lra. rewrite Rmax_right by lra. reflexivity.
Qed.

Example getTargetColor_down :
  l (fst (getTargetColor zeroSource (mkColorHSL 200 50 95) 20 0%nat)) = 75.
Proof.
  rewrite getTargetColor_unfold. unfold zeroSource. cbn [fst l].
  destruct (Rgt_dec 0 0.5); [lra|].
  rewrite Rmin_right by lra. rewrite Rmax_right by lra. lra.
Qed.

Section BaseColour.

Variable random : nat -> R.
Hypothesis random_range : forall k, 0 <= random k < 1.

Lemma generateColor_channels (n : nat) :
  exists kh ks kl : Z,
    fst (generateColor random n) = mkColorHSL (IZR kh) (IZR ks) (IZR kl) /\
    (0 <= kh <= 359)%Z /\ (40 <= ks <= 79)%Z /\ (30 <= kl <= 69)%Z.
Proof.
  rewrite generateColor_unfold. cbn [fst].
  pose proof (floor_scaled_range (random n) 360 (random_range _) eq_refl) as Hh.
  pose proof (floor_scaled_range (random (S n)) 40 (random_range _) eq_refl) as Hs.
  pose proof (floor_scaled_range (random (S (S n))) 40 (random_range _) eq_refl) as Hl.
  exists (Math_floor (random n * 360)),
         (40 + Math_floor (random (S n) * 40))%Z,
         (30 + Math_floor (random (S (S n)) * 40))%Z.
  split; [|lia].
  rewrite !plus_IZR. reflexivity.
Qed.

Lemma generateColor_lightness (n : nat) :
  30 <= l (fst (generateColor random n)) <= 69.
Proof.
  destruct (generateColor_channels n) as (kh & ks & kl & -> & _ & _ & Hl).
  cbn [l]. destruct Hl as [H1 H2].
  apply IZR_le in H1, H2. lra.
Qed.

End BaseColour.

(** C8 (as the code has it). With a random source in [0,1), every colour of
    generateColor has an integer hue between 0 and 359, an integer saturation
    between 40 and 79 and an integer lightness between 30 and 69; each of
    these integers comes from a band of the source of the same width (1/360,
    1/40, 1/40), and every such triple of integers is the output for some
    outcome of the source. *)
Theorem generateColor_range (random : nat -> R) (n : nat) :
  (forall k, 0 <= random k < 1) ->
  let c := fst (generateColor random n) in
  (exists kh ks kl : Z,
      c = mkColorHSL (IZR kh) (IZR ks) (IZR kl) /\
      (0 <= kh <= 359)%Z /\ (40 <= ks <= 79)%Z /\ (30 <= kl <= 69)%Z) /\
  (forall k : Z,
      (h c = IZR k <-> IZR k / 360 <= random n < (IZR k + 1) / 360) /\
      (s c = IZR k <->
       IZR (k - 40) / 40 <= random (S n) < (IZR (k - 40) + 1) / 40) /\
      (l c = IZR k <->
       IZR (k - 30) / 40 <= random (S (S n)) < (IZR (k - 30) + 1) / 40)) /\
  (forall kh ks kl : Z,
      (0 <= kh <= 359)%Z -> (40 <= ks <= 79)%Z -> (30 <= kl <= 69)%Z ->
      exists random' : nat -> R,
        (forall k, 0 <= random' k < 1) /\
        fst (generateColor random' n) = mkColorHSL (IZR kh) (IZR ks) (IZR kl)).
Proof.
  intros Hrange c. split; [apply generateColor_channels; assumption|].
  split.
  - intros k. subst c. rewrite generateColor_unfold. cbn [fst h s l].
    split; [|split].
    + rewrite <- (floor_scaled_band (random n) 360 k eq_refl).
      split; [apply eq_IZR | intros ->; reflexivity].
    + rewrite <- (floor_scaled_band (random (S n)) 40 (k - 40) eq_refl).
      split.
      * intros H. apply eq_IZR. rewrite minus_IZR. lra.
      * intros ->. rewrite minus_IZR. lra.
    + rewrite <- (floor_scaled_band (random (S (S n))) 40 (k - 30) eq_refl).
      split.
      * intros H. apply eq_IZR. rewrite minus_IZR. lra.
      * intros ->. rewrite minus_IZR. lra.
  - intros kh ks kl Hh Hs Hl.
    exists (threeDraws n (IZR kh / 360) (IZR (ks - 40) / 40) (IZR (kl - 30) / 40)).
    assert (Bh : 0 <= IZR kh <= 359) by (split; apply IZR_le; lia).
    assert (Bs : 0 <= IZR (ks - 40) <= 39) by (split; apply IZR_le; lia).
    assert (Bl : 0 <= IZR (kl - 30) <= 39) by (split; apply IZR_le; lia).
    split.
    + intros k. unfold threeDraws.
      destruct (Nat.eqb k n); [|destruct (Nat.eqb k (S n))]; lra.
    + rewrite generateColor_unfold. cbn [fst]. unfold threeDraws.
      rewrite Nat.eqb_refl.
      replace (Nat.eqb (S n) n) with false
        by (symmetry; apply Nat.eqb_neq; lia).
      rewrite Nat.eqb_refl.
      replace (Nat.eqb (S (S n)) n) with false
        by (symmetry; apply Nat.eqb_neq; lia).
      replace (Nat.eqb (S (S n)) (S n)) with false
        by (symmetry; apply Nat.eqb_neq; lia).
      assert (E1 : Math_floor (IZR kh / 360 * 360) = kh)
        by (apply floor_scaled_band; [reflexivity | lra]).
      assert (E2 : Math_floor (IZR (ks - 40) / 40 * 40) = (ks - 40)%Z)
        by (apply floor_scaled_band; [reflexivity | lra]).
      assert (E3 : Math_floor (IZR (kl - 30) / 40 * 40) = (kl - 30)%Z)
        by (apply floor_scaled_band; [reflexivity | lra]).
      rewrite E1, E2, E3, !minus_IZR. f_equal; lra.
Qed.

Lemma generateColor_range_witness :
  (forall k, 0 <= zeroSource k < 1) /\
  exists kh ks kl : Z,
    fst (generateColor zeroSource 0%nat) = mkColorHSL (IZR kh) (IZR ks) (IZR kl) /\
    (0 <= kh <= 359)%Z /\ (40 <= ks <= 79)%Z /\ (30 <= kl <= 69)%Z.
Proof.
  assert (Hz : forall k, 0 <= zeroSource k < 1) by (intros k; unfold zeroSource; lra).
  split; [exact Hz|].
  apply (generateColor_range zeroSource 0%nat Hz).
Defined.

(** C8, the part that fails. The stated intervals contain values that no
    outcome of the random source produces: saturation 80, lightness 70, and
    fractional values such as hue 0.5. *)
Lemma generateColor_misses_values :
  (40 <= 80 <= 80 /\
   forall (random : nat -> R) (n : nat), (forall k, 0 <= random k < 1) ->
     s (fst (generateColor random n)) <> 80) /\
  (30 <= 70 <= 70 /\
   forall (random : nat -> R) (n : nat), (forall k, 0 <= random k < 1) ->
     l (fst (generateColor random n)) <> 70) /\
  (0 <= 0.5 < 360 /\
   forall (random : nat -> R) (n : nat), (forall k, 0 <= random k < 1) ->
     h (fst (generateColor random n)) <> 0.5).
Proof.
  split; [|split]; (split; [lra|]); intros random n Hrange;
    destruct (generateColor_channels random Hrange n)
      as (kh & ks & kl & -> & Hh & Hs & Hl); cbn [h s l].
  - intros E. change 80 with (IZR 80) in E. apply eq_IZR in E. lia.
  - intros E. change 70 with (IZR 70) in E. apply eq_IZR in E. lia.
  - intros E.
    assert (E2 : IZR (2 * kh) = IZR 1) by (rewrite mult_IZR; lra).
    apply eq_IZR in E2. lia.
Qed.


Lemma zeroSource_range : forall k, 0 <= zeroSource k < 1.
Proof. intros k. unfold zeroSource. lra. Qed.


(** ** Array writes inside the array *)

Section ArrayFacts.

Variables (a : list Cell) (i : Z) (v : ColorHSL).
Hypothesis i_inside : (0 <= i < Z.of_nat (length a))%Z.

Lemma array_set_inside :
  array_set a i v = firstn (Z.to_nat i) a ++ Some v :: skipn (S (Z.to_nat i)) a.
Proof.
  unfold array_set.
  destruct (Z.ltb_spec i 0); [lia|].
  destruct (Z.ltb_spec i (Z.of_nat (length a))); [reflexivity | lia].
Qed.

Lemma array_set_length : length (array_set a i v) = length a.
Proof.
  rewrite array_set_inside, length_app. cbn [length].
  rewrite length_firstn, length_skipn. lia.
Qed.

Lemma array_get_set_same : array_get (array_set a i v) i = Some v.
Proof.
  unfold array_get. destruct (Z.ltb_spec i 0); [lia|].
  rewrite array_set_inside.
  rewrite nth_error_app2 by (rewrite length_firstn; lia).
  rewrite length_firstn.
  replace (Z.to_nat i - Nat.min (Z.to_nat i) (length a))%nat with 0%nat by lia.
  reflexivity.
Qed.

Lemma array_get_set_other (j : Z) :
  j <> i -> array_get (array_set a i v) j = array_get a j.
Proof.
  intros Hji. unfold array_get.
  destruct (Z.ltb_spec j 0); [reflexivity|].
  rewrite array_set_inside.
  assert (Hlen : length (firstn (Z.to_nat i) a) = Z.to_nat i)
    by (rewrite length_firstn; lia).
  destruct (Z.lt_ge_cases j i) as [Hlt | Hge].
  - rewrite nth_error_app1 by lia.
    rewrite nth_error_firstn.
    destruct (Nat.ltb_spec (Z.to_nat j) (Z.to_nat i)); [reflexivity | lia].
  - rewrite nth_error_app2 by lia. rewrite Hlen.
    replace (Z.to_nat j - Z.to_nat i)%nat
      with (S (Z.to_nat j - S (Z.to_nat i))) by lia.
    cbn [nth_error]. rewrite nth_error_skipn.
    replace (S (Z.to_nat i) + (Z.to_nat j - S (Z.to_nat i)))%nat
      with (Z.to_nat j) by lia.
    reflexivity.
Qed.

End ArrayFacts.

Lemma array_get_fill (base : ColorHSL) (m : nat) (j : Z) :
  (0 <= j < Z.of_nat m)%Z ->
  array_get (map (fun _ : unit => Some base) (repeat tt m)) j = Some base.
Proof.
  intros Hj. unfold array_get. destruct (Z.ltb_spec j 0); [lia|].
  rewrite nth_error_map, nth_error_repeat by lia. reflexivity.
Qed.

(** ** Level generation *)

Lemma generateLevelWith_unfold (random : nat -> R) (diff : R) (st : State) (n : nat) :
  generateLevelWith random diff st n =
  (let base := fst (generateColor random n) in
   let targetIdx := Math_floor (random (3 + n)%nat * 25) in
   let target := fst (getTargetColor random base diff (4 + n)%nat) in
   setTargetIndex targetIdx
     (setGrid (array_set (map (fun _ : unit => Some base) (repeat tt 25))
                         targetIdx target)
        (setLastDiff diff (setDifficulty diff st))),
   (5 + n)%nat).
Proof. reflexivity. Qed.

Lemma newDiff_pos (sc : Z) : 0 < newDiff sc.
Proof.
  rewrite newDiff_unfold.
  apply Rlt_le_trans with 1.5; [lra | apply Rmax_l].
Qed.

Section LevelFacts.

Variable random : nat -> R.
Hypothesis random_range : forall k, 0 <= random k < 1.
Variables (diff : R) (st : State) (n : nat).

Local Abbreviation base := (fst (generateColor random n)).
Local Abbreviation st' := (fst (generateLevelWith random diff st n)).

Lemma level_targetIndex :
  targetIndex st' = Math_floor (random (3 + n)%nat * 25).
Proof. reflexivity. Qed.

Lemma level_grid :
  grid st' =
  array_set (map (fun _ : unit => Some base) (repeat tt 25))
            (targetIndex st')
            (fst (getTargetColor random base diff (4 + n)%nat)).
Proof. reflexivity. Qed.

Lemma level_target_range : (0 <= targetIndex st' < 25)%Z.
Proof.
  rewrite level_targetIndex.
  apply (floor_scaled_range _ 25 (random_range _)). reflexivity.
Qed.

Lemma level_grid_length : length (grid st') = 25%nat.
Proof.
  pose proof level_target_range as Ht.
  rewrite level_grid, array_set_length;
    rewrite length_map, repeat_length; [reflexivity | lia].
Qed.

Lemma level_target_cell :
  array_get (grid st') (targetIndex st')
  = Some (fst (getTargetColor random base diff (4 + n)%nat)).
Proof.
  pose proof level_target_range as Ht.
  rewrite level_grid.
  apply array_get_set_same. rewrite length_map, repeat_length. lia.
Qed.

Lemma level_other_cells (j : Z) :
  (0 <= j < 25)%Z -> j <> targetIndex st' ->
  array_get (grid st') j = Some base.
Proof.
  pose proof level_target_range as Ht.
  intros Hj Hne. rewrite level_grid.
  rewrite array_get_set_other.
  - apply (array_get_fill _ 25). lia.
  - rewrite length_map, repeat_length. lia.
  - assumption.
Qed.

Lemma level_frame :
  score st' = score st /\ timeLeft st' = timeLeft st /\
  isActive st' = isActive st /\ isGameOver st' = isGameOver st /\
  difficulty st' = diff /\ lastDiff st' = diff.
Proof. rewrite generateLevelWith_unfold. cbn. tauto. Qed.

End LevelFacts.

Lemma shift_differs (random : nat -> R) (base : ColorHSL) (diff : R) (m : nat) :
  30 <= l base <= 69 -> 0 < diff ->
  l (fst (getTargetColor random base diff m)) <> l base.
Proof.
  intros Hl Hd. rewrite getTargetColor_lightness.
  destruct (Rgt_dec (random m) 0.5).
  - apply Rgt_not_eq. unfold Rmax, Rmin.
    destruct (Rle_dec 100 (l base + diff)); destruct (Rle_dec 0 _); lra.
  - apply Rlt_not_eq. unfold Rmax, Rmin.
    destruct (Rle_dec 100 (l base - diff)); destruct (Rle_dec 0 _); lra.
Qed.

(** C3. For every diff > 0 and every outcome of the random source, the level
    built by generateLevel is a grid of exactly 25 colours whose target index
    lies in [0,25); the cell at the target index has the hue and saturation
    of the base colour and a different lightness, and each of the other 24
    cells is the base colour itself. generateLevel calls this construction
    with newDiff(currentScore), which is always positive. *)
Theorem generateLevel_one_odd (random : nat -> R) (diff : R) (st : State) (n : nat) :
  (forall k, 0 <= random k < 1) ->
  0 < diff ->
  let base := fst (generateColor random n) in
  let st' := fst (generateLevelWith random diff st n) in
  length (grid st') = 25%nat /\
  (0 <= targetIndex st' < 25)%Z /\
  (exists c : ColorHSL,
      array_get (grid st') (targetIndex st') = Some c /\
      h c = h base /\ s c = s base /\ l c <> l base) /\
  (forall j : Z, (0 <= j < 25)%Z -> j <> targetIndex st' ->
      array_get (grid st') j = Some base) /\
  (forall j : Z, (0 <= j < 25)%Z ->
      (array_get (grid st') j <> Some base <-> j = targetIndex st')) /\
  (forall sc : Z,
      generateLevel random sc st n = generateLevelWith random (newDiff sc) st n /\
      0 < newDiff sc).
Proof.
  intros Hrange Hdiff base st'.
  assert (Hodd : l (fst (getTargetColor random base diff (4 + n)%nat)) <> l base).
  { apply shift_differs; [|assumption].
    apply generateColor_lightness; assumption. }
  split; [apply level_grid_length; assumption|].
  split; [apply level_target_range; assumption|].
  split.
  { eexists. split; [apply level_target_cell; assumption|].
    rewrite getTargetColor_unfold. cbn [fst h s].
    split; [reflexivity|]. split; [reflexivity|].
    rewrite getTargetColor_unfold in Hodd. exact Hodd. }
  split; [intros j; apply level_other_cells; assumption|].
  split.
  - intros j Hj. split.
    + intros Hne. destruct (Z.eq_dec j (targetIndex st')) as [E | E]; [exact E|].
      exfalso. apply Hne. apply level_other_cells; assumption.
    + intros -> Heq. unfold st', base in Heq.
      rewrite level_target_cell in Heq by assumption.
      apply Hodd.
      exact (f_equal (fun c : Cell => match c with Some x => l x | None => 0 end) Heq).
  - intros sc. split; [reflexivity | apply newDiff_pos].
Qed.

Lemma generateLevel_one_odd_witness :
  0 < 20 /\
  length (grid (fst (generateLevelWith zeroSource 20 initialState 0%nat))) = 25%nat.
Proof.
  assert (Hd : 0 < 20) by lra.
  split; [exact Hd|].
  apply (generateLevel_one_odd zeroSource 20 initialState 0%nat zeroSource_range Hd).
Defined.

(** ** A concrete session *)

Lemma zero_base : fst (generateColor zeroSource 0%nat) = mkColorHSL 0 40 30.
Proof.
  rewrite generateColor_unfold. cbn [fst]. unfold zeroSource.
  rewrite (floor_zero 360), (floor_zero 40). f_equal; lra.
Qed.

Lemma zero_target :
  fst (getTargetColor zeroSource (mkColorHSL 0 40 30) 20 4%nat) = mkColorHSL 0 40 10.
Proof.
  rewrite getTargetColor_unfold. cbn [fst h s l]. unfold zeroSource.
  destruct (Rgt_dec 0 0.5); [lra|].
  f_equal. rewrite Rmin_right by lra. rewrite Rmax_right by lra. lra.
Qed.

Lemma startGame_zeroSource :
  startGame zeroSource initialState 0%nat = (sessionAt 60, 5%nat).
Proof.
  unfold startGame, generateLevel.
  rewrite newDiff_0, generateLevelWith_unfold. cbv zeta. cbn [Nat.add].
  rewrite zero_base, zero_target.
  replace (Math_floor (zeroSource 3%nat * 25)) with 0%Z
    by (symmetry; apply (floor_zero 25)).
  reflexivity.
Qed.

(** ** The timer *)

Lemma tick_not_running (st : State) : timerRunning st = false -> tick st = st.
Proof. intros H. unfold tick. rewrite H. reflexivity. Qed.

Lemma tick_stopped_forever (st : State) (k : nat) :
  timerRunning st = false -> ticks k st = st.
Proof.
  intros H. induction k as [|k IH]; [reflexivity|].
  cbn [ticks]. rewrite (tick_not_running st H). exact IH.
Qed.

Lemma activity_active (st : State) :
  activityState st = active <-> isActive st = true /\ isGameOver st = false.
Proof.
  unfold activityState.
  destruct (isActive st), (isGameOver st); cbn; split;
    try discriminate; try tauto; intros [? ?]; discriminate.
Qed.

Lemma activity_idle (st : State) :
  activityState st = idle <-> isActive st = false /\ isGameOver st = false.
Proof.
  unfold activityState.
  destruct (isActive st), (isGameOver st); cbn; split;
    try discriminate; try tauto; intros [? ?]; discriminate.
Qed.

Lemma wf_not_active (st : State) :
  wf st -> activityState st <> active -> isActive st = false.
Proof.
  intros (_ & _ & Hflags & _) Hna.
  destruct (isActive st) eqn:Ea; [|reflexivity].
  exfalso. apply Hna. apply activity_active. auto.
Qed.

(** C7 (as the code has it). A tick changes nothing in a state that is not
    active. In an active session with time left it takes exactly one second
    off and leaves score and grid alone; when that brings the time to 0 the
    session is over and the timer stops, otherwise the session stays active.
    From an active state with 2 seconds left, two ticks give 0 seconds and
    the state over, and no later tick changes anything. *)
Theorem tick_spec (st : State) :
  wf st ->
  (activityState st <> active -> tick st = st) /\
  (activityState st = active -> (0 < timeLeft st)%Z ->
     timeLeft (tick st) = (timeLeft st - 1)%Z /\
     score (tick st) = score st /\
     grid (tick st) = grid st /\
     (timeLeft (tick st) = 0%Z ->
        activityState (tick st) = over /\ timerRunning (tick st) = false) /\
     (timeLeft (tick st) <> 0%Z -> activityState (tick st) = active)) /\
  (activityState st = active -> timeLeft st = 2%Z ->
     timeLeft (tick (tick st)) = 0%Z /\
     activityState (tick (tick st)) = over /\
     forall k : nat, ticks k (tick (tick st)) = tick (tick st)).
Proof.
  intros Hwf. split; [|split].
  - intros Hna. apply tick_not_running. unfold timerRunning.
    rewrite (wf_not_active st Hwf Hna). reflexivity.
  - intros Hact Hpos. apply activity_active in Hact as [Ha Hg].
    unfold tick, timerRunning, timerCallback. rewrite Ha.
    destruct (Z.ltb_spec 0 (timeLeft st)); [|lia]. cbn [andb].
    destruct (Z.leb_spec (timeLeft st) 1) as [Hle | Hgt].
    + cbn. unfold activityState. cbn.
      repeat split; try reflexivity; try lia.
    + cbn. unfold activityState. cbn. rewrite Ha, Hg. cbn.
      repeat split; try reflexivity; try lia.
  - intros Hact H2. apply activity_active in Hact as [Ha Hg].
    assert (E : tick (tick st)
                = setTimeLeft 0 (setIsGameOver true (setIsActive false
                    (setTimeLeft 1 st)))).
    { assert (E1 : tick st = setTimeLeft 1 st).
      { unfold tick, timerRunning, timerCallback. rewrite Ha, H2. reflexivity. }
      rewrite E1. unfold tick, timerRunning, timerCallback. cbn.
      rewrite Ha. reflexivity. }
    rewrite E. split; [reflexivity|]. split; [reflexivity|].
    intros k. apply tick_stopped_forever. reflexivity.
Qed.

Lemma wf_sessionAt (t : Z) : (0 <= t <= 60)%Z -> wf (sessionAt t).
Proof.
  intros Ht. unfold wf, sessionAt, INITIAL_TIME, GRID_SIZE. cbn.
  repeat split; try lia; try reflexivity.
Qed.

Lemma tick_spec_witness :
  wf (sessionAt 2) /\
  activityState (sessionAt 2) = active /\
  timeLeft (sessionAt 2) = 2%Z /\
  timeLeft (tick (tick (sessionAt 2))) = 0%Z /\
  activityState (tick (tick (sessionAt 2))) = over.
Proof.
  assert (Hwf : wf (sessionAt 2)) by (apply wf_sessionAt; lia).
  split; [exact Hwf|]. split; [reflexivity|]. split; [reflexivity|].
  destruct (tick_spec (sessionAt 2) Hwf) as (_ & _ & H).
  destruct (H eq_refl eq_refl) as (H0 & Hover & _).
  split; [exact H0 | exact Hover].
Defined.

(** ** Clicks *)

Section ClickFacts.

Variable random : nat -> R.
Variables (index : Z) (st : State) (n : nat).

Lemma click_inactive :
  isActive st = false -> handleBlockClick random index st n = (st, n).
Proof. intros Ha. unfold handleBlockClick. rewrite Ha. reflexivity. Qed.

Lemma click_wrong :
  activityState st = active -> index <> targetIndex st ->
  handleBlockClick random index st n
  = (setTimeLeft (Z.max 0 (timeLeft st - 3)) st, n).
Proof.
  intros Hact Hne. apply activity_active in Hact as [Ha Hg].
  unfold handleBlockClick. rewrite Ha, Hg. cbn [negb orb].
  destruct (Z.eqb_spec index (targetIndex st)); [contradiction | reflexivity].
Qed.

Lemma click_right :
  activityState st = active -> index = targetIndex st ->
  handleBlockClick random index st n
  = generateLevel random (score st + 1) (setScore (score st + 1) st) n.
Proof.
  intros Hact He. apply activity_active in Hact as [Ha Hg].
  unfold handleBlockClick. rewrite Ha, Hg. cbn [negb orb].
  destruct (Z.eqb_spec index (targetIndex st)); [reflexivity | contradiction].
Qed.

End ClickFacts.

(** ** Every state of a session is well formed *)

Lemma wf_initialState : wf initialState.
Proof.
  unfold wf, initialState, INITIAL_TIME. cbn.
  split; [lia|]. split; [lia|]. split; [discriminate|].
  intros Hne. exfalso. apply Hne. reflexivity.
Qed.

Lemma wf_tick (st : State) : wf st -> wf (tick st).
Proof.
  intros Hwf. unfold tick, timerRunning.
  destruct (isActive st) eqn:Ha; [|exact Hwf].
  destruct (Z.ltb_spec 0 (timeLeft st)) as [Hpos | _]; [|exact Hwf].
  cbn [andb]. destruct Hwf as (Hs & Ht & Hf & Hg).
  assert (Hni : activityState st <> idle).
  { intros E. apply activity_idle in E as [E _]. congruence. }
  specialize (Hg Hni).
  unfold timerCallback, wf.
  destruct (Z.leb_spec (timeLeft st) 1); cbn; unfold INITIAL_TIME in *.
  - repeat split; try lia; try discriminate; apply Hg.
  - repeat split; try lia; try (apply Hg); auto.
Qed.

Section Sessions.

Variable random : nat -> R.
Hypothesis random_range : forall k, 0 <= random k < 1.

Lemma wf_generateLevelWith (diff : R) (st : State) (n : nat) :
  (0 <= score st)%Z -> (0 <= timeLeft st <= INITIAL_TIME)%Z ->
  (isActive st = true -> isGameOver st = false) ->
  wf (fst (generateLevelWith random diff st n)).
Proof.
  intros Hs Ht Hf.
  destruct (level_frame random diff st n) as (Es & Et & Ea & Eg & _).
  unfold wf. rewrite Es, Et, Ea, Eg.
  repeat split; try assumption; try lia.
  - apply (level_target_range random random_range diff st n).
  - apply (level_target_range random random_range diff st n).
  - apply (level_grid_length random random_range diff st n).
Qed.

Lemma wf_startGame (st : State) (n : nat) :
  wf (fst (startGame random st n)).
Proof.
  unfold startGame, generateLevel.
  apply wf_generateLevelWith; cbn; unfold INITIAL_TIME; try lia; reflexivity.
Qed.

Lemma wf_handleBlockClick (index : Z) (st : State) (n : nat) :
  wf st -> wf (fst (handleBlockClick random index st n)).
Proof.
  intros Hwf.
  destruct (isActive st) eqn:Ha;
    [|rewrite click_inactive by assumption; exact Hwf].
  pose proof Hwf as (Hs & Ht & Hf & Hg).
  assert (Hact : activityState st = active)
    by (apply activity_active; auto).
  destruct (Z.eq_dec index (targetIndex st)) as [E | E].
  - rewrite click_right by assumption. unfold generateLevel.
    apply wf_generateLevelWith; cbn; try lia; assumption.
  - rewrite click_wrong by assumption. cbn [fst].
    unfold wf, activityState in *. cbn. unfold INITIAL_TIME in *.
    repeat split; try lia; try assumption; apply Hg; assumption.
Qed.

Lemma wf_exec (c : Command) (st : State) (n : nat) :
  wf st -> wf (fst (exec random c st n)).
Proof.
  intros Hwf. destruct c; cbn [exec].
  - apply wf_startGame.
  - apply wf_tick, Hwf.
  - apply wf_handleBlockClick, Hwf.
Qed.

Lemma wf_run (cs : list Command) :
  forall (st : State) (n : nat), wf st -> wf (fst (run random cs st n)).
Proof.
  induction cs as [|c cs IH]; intros st n Hwf; [exact Hwf|].
  cbn [run]. unfold bind. apply IH, wf_exec, Hwf.
Qed.

Lemma reachable_wf (st : State) : reachable random st -> wf st.
Proof.
  intros (cs & n & <-). apply wf_run, wf_initialState.
Qed.

End Sessions.

Lemma run_cons (random : nat -> R) (c : Command) (cs : list Command)
      (st : State) (n : nat) :
  run random (c :: cs) st n
  = run random cs (fst (exec random c st n)) (snd (exec random c st n)).
Proof. reflexivity. Qed.

Lemma exec_start (random : nat -> R) (st : State) (n : nat) :
  exec random CmdStart st n = startGame random st n.
Proof. reflexivity. Qed.

Lemma run_ticks (random : nat -> R) (k : nat) :
  forall (st : State) (n : nat),
    run random (repeat CmdTick k) st n = (ticks k st, n).
Proof.
  induction k as [|k IH]; intros st n; [reflexivity|].
  cbn [repeat run ticks]. unfold bind. cbn [exec ret fst snd]. apply IH.
Qed.

Lemma tick_sessionAt (t : Z) :
  (1 < t)%Z -> tick (sessionAt t) = sessionAt (t - 1).
Proof.
  intros Ht. unfold tick, timerRunning, timerCallback, sessionAt.
  cbn [isActive timeLeft andb].
  destruct (Z.ltb_spec 0 t); [|lia].
  destruct (Z.leb_spec t 1); [lia | reflexivity].
Qed.

Lemma ticks_sessionAt (k : nat) :
  forall t : Z, (Z.of_nat k < t)%Z ->
    ticks k (sessionAt t) = sessionAt (t - Z.of_nat k).
Proof.
  induction k as [|k IH]; intros t Ht.
  - cbn [ticks]. f_equal. lia.
  - cbn [ticks]. rewrite tick_sessionAt by lia. rewrite IH by lia.
    f_equal. lia.
Qed.

Lemma sessionAt_2_reached :
  run zeroSource (CmdStart :: repeat CmdTick 58) initialState 0%nat
  = (sessionAt 2, 5%nat).
Proof.
  rewrite run_cons, exec_start, startGame_zeroSource.
  change (run zeroSource (repeat CmdTick 58) (sessionAt 60) 5%nat
          = (sessionAt 2, 5%nat)).
  rewrite run_ticks, ticks_sessionAt by lia. reflexivity.
Qed.

(** C1, on the code. In the session started from zeroSource (target at
    index 0) and left with 2 seconds, a click on tile 1 brings the time to 0
    but the session is still active, not over, and no tick ever changes that:
    the timer has stopped. *)
Theorem click_penalty_zero_still_active :
  let st := sessionAt 2 in
  let st' := fst (handleBlockClick zeroSource 1 st 5%nat) in
  run zeroSource (CmdStart :: repeat CmdTick 58) initialState 0%nat
  = (st, 5%nat) /\
  activityState st = active /\ timeLeft st = 2%Z /\ 1%Z <> targetIndex st /\
  timeLeft st' = 0%Z /\
  activityState st' = active /\ activityState st' <> over /\
  timerRunning st' = false /\
  forall k : nat, ticks k st' = st'.
Proof.
  cbv zeta.
  split; [exact sessionAt_2_reached|].
  split; [reflexivity|]. split; [reflexivity|]. split; [discriminate|].
  split; [reflexivity|]. split; [reflexivity|]. split; [discriminate|].
  split; [reflexivity|].
  intros k. apply tick_stopped_forever. reflexivity.
Qed.

(** The same in general: a wrong click that uses up the remaining time
    leaves an active session with no time and no timer. *)
Lemma click_wrong_out_of_time (random : nat -> R) (index : Z) (st : State) (n : nat) :
  activityState st = active -> index <> targetIndex st ->
  (timeLeft st <= 3)%Z ->
  let st' := fst (handleBlockClick random index st n) in
  timeLeft st' = 0%Z /\ activityState st' = active /\
  forall k : nat, ticks k st' = st'.
Proof.
  intros Hact Hne Hle. rewrite click_wrong by assumption. cbn [fst].
  assert (E : Z.max 0 (timeLeft st - 3) = 0%Z) by lia.
  rewrite E. split; [reflexivity|]. split; [exact Hact|].
  intros k. apply tick_stopped_forever.
  unfold timerRunning. cbn. apply andb_false_r.
Qed.

(** C2, the part that fails. In the session just started from zeroSource a
    click on index 25, which is outside the grid, costs three seconds. *)
Lemma click_out_of_range_costs_time :
  run zeroSource [CmdStart] initialState 0%nat = (sessionAt 60, 5%nat) /\
  (25 < 0 \/ 25 <= 25)%Z /\
  timeLeft (sessionAt 60) = 60%Z /\
  timeLeft (fst (handleBlockClick zeroSource 25 (sessionAt 60) 5%nat)) = 57%Z /\
  fst (handleBlockClick zeroSource 25 (sessionAt 60) 5%nat) <> sessionAt 60.
Proof.
  split.
  { rewrite run_cons, exec_start, startGame_zeroSource. reflexivity. }
  split; [right; lia|]. split; [reflexivity|]. split; [reflexivity|].
  intros E. apply (f_equal timeLeft) in E. discriminate E.
Qed.

(** C2 (as the code has it). A click with an index outside [0,25) never
    fails and never changes score, grid or target index. When the session is
    not active it changes nothing at all; in an active session it is handled
    like any wrong tile: the time remaining drops by 3, floored at 0. *)
Theorem click_out_of_range (random : nat -> R) (index : Z) (st : State) (n : nat) :
  wf st ->
  (index < 0 \/ 25 <= index)%Z ->
  let st' := fst (handleBlockClick random index st n) in
  score st' = score st /\
  grid st' = grid st /\
  targetIndex st' = targetIndex st /\
  timeLeft st' = match activityState st with
                 | active => Z.max 0 (timeLeft st - 3)
                 | _ => timeLeft st
                 end /\
  (activityState st <> active ->
   handleBlockClick random index st n = (st, n)).
Proof.
  intros Hwf Hout st'.
  destruct (activityState st) eqn:Hact.
  - assert (E : handleBlockClick random index st n = (st, n)).
    { apply click_inactive, wf_not_active; [assumption | congruence]. }
    subst st'. rewrite E. cbn [fst]. tauto.
  - assert (Hne : index <> targetIndex st).
    { destruct Hwf as (_ & _ & _ & Hg).
      assert (Hni : activityState st <> idle) by congruence.
      destruct (Hg Hni) as [Hrange _]. unfold GRID_SIZE in Hrange. lia. }
    subst st'. rewrite click_wrong by assumption. cbn [fst].
    repeat split; try reflexivity. intros Hc. congruence.
  - assert (E : handleBlockClick random index st n = (st, n)).
    { apply click_inactive, wf_not_active; [assumption | congruence]. }
    subst st'. rewrite E. cbn [fst]. tauto.
Qed.

Lemma click_out_of_range_witness :
  wf (sessionAt 60) /\ (25 < 0 \/ 25 <= 25)%Z /\
  score (fst (handleBlockClick zeroSource 25 (sessionAt 60) 5%nat))
  = score (sessionAt 60).
Proof.
  assert (Hwf : wf (sessionAt 60)) by (apply wf_sessionAt; lia).
  assert (Hout : (25 < 0 \/ 25 <= 25)%Z) by (right; lia).
  split; [exact Hwf|]. split; [exact Hout|].
  apply (click_out_of_range zeroSource 25 (sessionAt 60) 5%nat Hwf Hout).
Defined.

(** ** Before the first start *)

Lemma exec_idle (random : nat -> R) (c : Command) (n : nat) :
  c <> CmdStart -> exec random c initialState n = (initialState, n).
Proof.
  intros Hc. destruct c as [| |index]; [contradiction | reflexivity | reflexivity].
Qed.

Lemma run_idle (random : nat -> R) (cs : list Command) (n : nat) :
  ~ In CmdStart cs -> run random cs initialState n = (initialState, n).
Proof.
  induction cs as [|c cs IH]; intros Hnot; [reflexivity|].
  rewrite run_cons, exec_idle.
  - apply IH. intros Hin. apply Hnot. right. exact Hin.
  - intros ->. apply Hnot. left. reflexivity.
Qed.

(** C10. In the state of the first render the grid is the empty sequence and
    the target index is -1; every click, and every sequence of clicks and
    ticks, leaves that state as it is; the first start puts a grid of 25
    cells in place. *)
Theorem initial_state_spec (random : nat -> R) :
  (forall k, 0 <= random k < 1) ->
  grid initialState = [] /\
  length (grid initialState) = 0%nat /\
  targetIndex initialState = (-1)%Z /\
  activityState initialState = idle /\
  (forall (index : Z) (n : nat),
      handleBlockClick random index initialState n = (initialState, n)) /\
  (forall (cs : list Command) (n : nat),
      ~ In CmdStart cs -> run random cs initialState n = (initialState, n)) /\
  (forall n : nat,
      length (grid (fst (startGame random initialState n))) = 25%nat /\
      (0 <= targetIndex (fst (startGame random initialState n)) < 25)%Z /\
      activityState (fst (startGame random initialState n)) = active).
Proof.
  intros Hrange.
  split; [reflexivity|]. split; [reflexivity|]. split; [reflexivity|].
  split; [reflexivity|].
  split; [intros index n; reflexivity|].
  split; [intros cs n; apply run_idle|].
  intros n. unfold startGame, generateLevel.
  split; [apply level_grid_length; assumption|].
  split; [apply level_target_range; assumption|].
  reflexivity.
Qed.

Lemma initial_state_spec_witness :
  (forall k, 0 <= zeroSource k < 1) /\
  length (grid initialState) = 0%nat /\
  length (grid (fst (startGame zeroSource initialState 0%nat))) = 25%nat.
Proof.
  split; [exact zeroSource_range|].
  destruct (initial_state_spec zeroSource zeroSource_range)
    as (_ & H0 & _ & _ & _ & _ & Hstart).
  split; [exact H0 | exact (proj1 (Hstart 0%nat))].
Defined.

(** ** The level invariant of a session *)

Lemma newDiff_range (sc : Z) : (0 <= sc)%Z -> 1.5 <= newDiff sc <= 20.
Proof.
  intros Hsc. rewrite newDiff_unfold.
  assert (Hlog : 0 <= Math_log2 (IZR sc + 1)).
  { apply log2_nonneg. apply IZR_le in Hsc. lra. }
  split; [apply Rmax_l | apply Rmax_lub; lra].
Qed.

Lemma shift_exact (random : nat -> R) (base : ColorHSL) (diff : R) (m : nat) :
  30 <= l base <= 69 -> 1.5 <= diff <= 20 ->
  l (fst (getTargetColor random base diff m)) = l base + diff \/
  l (fst (getTargetColor random base diff m)) = l base - diff.
Proof.
  intros Hl Hd. rewrite getTargetColor_lightness.
  destruct (Rgt_dec (random m) 0.5); [left | right];
    rewrite Rmin_right by lra; rewrite Rmax_right by lra; reflexivity.
Qed.

Lemma levelInv_not_idle (st : State) :
  activityState st <> idle ->
  difficulty st = newDiff (score st) ->
  lastDiff st = newDiff (score st) ->
  (isGameOver st = true -> timeLeft st = 0%Z) ->
  (exists base c : ColorHSL,
      30 <= l base <= 69 /\
      (forall j : Z, (0 <= j < 25)%Z -> j <> targetIndex st ->
         array_get (grid st) j = Some base) /\
      array_get (grid st) (targetIndex st) = Some c /\
      h c = h base /\ s c = s base /\
      (l c = l base + lastDiff st \/ l c = l base - lastDiff st)) ->
  levelInv st.
Proof.
  intros Hni Hd Hl Ho Hg. unfold levelInv.
  destruct (activityState st); [contradiction | tauto | tauto].
Qed.

Lemma levelInv_started (st : State) :
  levelInv st -> activityState st <> idle ->
  difficulty st = newDiff (score st) /\
  lastDiff st = newDiff (score st) /\
  (isGameOver st = true -> timeLeft st = 0%Z) /\
  exists base c : ColorHSL,
    30 <= l base <= 69 /\
    (forall j : Z, (0 <= j < 25)%Z -> j <> targetIndex st ->
       array_get (grid st) j = Some base) /\
    array_get (grid st) (targetIndex st) = Some c /\
    h c = h base /\ s c = s base /\
    (l c = l base + lastDiff st \/ l c = l base - lastDiff st).
Proof.
  unfold levelInv. intros Hinv Hni.
  destruct (activityState st); [contradiction | exact Hinv | exact Hinv].
Qed.

Section LevelInvariant.

Variable random : nat -> R.
Hypothesis random_range : forall k, 0 <= random k < 1.

Lemma levelInv_generateLevel (st : State) (n : nat) :
  (0 <= score st)%Z -> isActive st = true -> isGameOver st = false ->
  levelInv (fst (generateLevel random (score st) st n)).
Proof.
  intros Hs Ha Hg. unfold generateLevel.
  destruct (level_frame random (newDiff (score st)) st n)
    as (Es & Et & Ea & Eg & Ed & El).
  apply levelInv_not_idle.
  - intros E. apply activity_idle in E as [E _]. congruence.
  - rewrite Ed, Es. reflexivity.
  - rewrite El, Es. reflexivity.
  - rewrite Eg, Hg. discriminate.
  - exists (fst (generateColor random n)),
           (fst (getTargetColor random (fst (generateColor random n))
                   (newDiff (score st)) (4 + n)%nat)).
    split; [apply generateColor_lightness; assumption|].
    split; [intros j; apply level_other_cells; assumption|].
    split; [apply level_target_cell; assumption|].
    split; [reflexivity|]. split; [reflexivity|].
    rewrite El. apply shift_exact.
    + apply generateColor_lightness; assumption.
    + apply newDiff_range; assumption.
Qed.

Lemma levelInv_startGame (st : State) (n : nat) :
  levelInv (fst (startGame random st n)).
Proof.
  unfold startGame.
  apply (levelInv_generateLevel
           (setIsGameOver false
              (setIsActive true (setTimeLeft INITIAL_TIME (setScore 0 st)))));
    [cbn; lia | reflexivity | reflexivity].
Qed.

Lemma levelInv_tick (st : State) : levelInv st -> levelInv (tick st).
Proof.
  intros Hinv. unfold tick, timerRunning.
  destruct (isActive st) eqn:Ha; [|exact Hinv].
  destruct (Z.ltb_spec 0 (timeLeft st)) as [Hpos | _]; [|exact Hinv].
  cbn [andb].
  assert (Hni : activityState st <> idle).
  { intros E. apply activity_idle in E as [E _]. congruence. }
  destruct (levelInv_started st Hinv Hni) as (Hd & Hl & Ho & Hgrid).
  unfold timerCallback.
  destruct (Z.leb_spec (timeLeft st) 1).
  - apply levelInv_not_idle;
      [discriminate | exact Hd | exact Hl | reflexivity | exact Hgrid].
  - apply levelInv_not_idle;
      [exact Hni | exact Hd | exact Hl | | exact Hgrid].
    cbn. intros Hg. specialize (Ho Hg). lia.
Qed.

Lemma levelInv_handleBlockClick (index : Z) (st : State) (n : nat) :
  wf st -> levelInv st ->
  levelInv (fst (handleBlockClick random index st n)).
Proof.
  intros Hwf Hinv.
  destruct (isActive st) eqn:Ha;
    [|rewrite click_inactive by assumption; exact Hinv].
  pose proof Hwf as (Hs & _ & Hf & _).
  assert (Hact : activityState st = active)
    by (apply activity_active; auto).
  destruct (Z.eq_dec index (targetIndex st)) as [E | E].
  - rewrite click_right by assumption.
    apply (levelInv_generateLevel (setScore (score st + 1) st));
      cbn; [lia | assumption | auto].
  - rewrite click_wrong by assumption. cbn [fst].
    assert (Hni : activityState st <> idle) by congruence.
    destruct (levelInv_started st Hinv Hni) as (Hd & Hl & Ho & Hgrid).
    apply levelInv_not_idle;
      [exact Hni | exact Hd | exact Hl | | exact Hgrid].
    cbn. rewrite (Hf Ha). discriminate.
Qed.

Lemma levelInv_run (cs : list Command) :
  forall (st : State) (n : nat),
    wf st -> levelInv st -> levelInv (fst (run random cs st n)).
Proof.
  induction cs as [|c cs IH]; intros st n Hwf Hinv; [exact Hinv|].
  rewrite run_cons. apply IH.
  - apply wf_exec; assumption.
  - destruct c; cbn [exec ret fst].
    + apply levelInv_startGame.
    + apply levelInv_tick, Hinv.
    + apply levelInv_handleBlockClick; assumption.
Qed.

Lemma reachable_levelInv (st : State) : reachable random st -> levelInv st.
Proof.
  intros (cs & n & <-).
  apply levelInv_run; [apply wf_initialState | reflexivity].
Qed.

End LevelInvariant.

(** ** Invariants of every session *)

Lemma sessionAt_2_reachable : reachable zeroSource (sessionAt 2).
Proof.
  exists (CmdStart :: repeat CmdTick 58), 0%nat.
  rewrite sessionAt_2_reached. reflexivity.
Qed.

(** X1. In every state a session can reach, the score is not negative, the
    time left is between 0 and 60, and the two flags are never both set.
    While the session is idle the state is still the initial one; once it is
    over no time is left and it is no longer active; and from the first start
    on the grid has 25 cells and the target index lies in [0,25). *)
Theorem session_invariant (random : nat -> R) (st : State) :
  (forall k, 0 <= random k < 1) ->
  reachable random st ->
  (0 <= score st)%Z /\
  (0 <= timeLeft st <= 60)%Z /\
  ~ (isActive st = true /\ isGameOver st = true) /\
  (activityState st = idle -> st = initialState) /\
  (activityState st = over -> timeLeft st = 0%Z /\ isActive st = false) /\
  (activityState st <> idle ->
   length (grid st) = 25%nat /\ (0 <= targetIndex st < 25)%Z).
Proof.
  intros Hrange Hreach.
  pose proof (reachable_wf random Hrange st Hreach) as (Hs & Ht & Hf & Hg).
  pose proof (reachable_levelInv random Hrange st Hreach) as Hinv.
  split; [exact Hs|]. split; [exact Ht|].
  split; [intros [Ha Ho]; specialize (Hf Ha); congruence|].
  split.
  { intros Hidle. unfold levelInv in Hinv. rewrite Hidle in Hinv. exact Hinv. }
  split.
  { intros Hover.
    assert (Hni : activityState st <> idle) by congruence.
    destruct (levelInv_started st Hinv Hni) as (_ & _ & Ho & _).
    assert (Hg' : isGameOver st = true).
    { unfold activityState in Hover.
      destruct (isActive st), (isGameOver st); cbn in Hover;
        congruence. }
    split; [exact (Ho Hg')|].
    destruct (isActive st); [specialize (Hf eq_refl); congruence | reflexivity]. }
  intros Hni. destruct (Hg Hni) as [Hrange' Hlen].
  split; [exact Hlen | exact Hrange'].
Qed.

Lemma session_invariant_witness :
  (forall k, 0 <= zeroSource k < 1) /\
  reachable zeroSource (sessionAt 2) /\
  (0 <= timeLeft (sessionAt 2) <= 60)%Z.
Proof.
  split; [exact zeroSource_range|]. split; [exact sessionAt_2_reachable|].
  apply (session_invariant zeroSource (sessionAt 2)
           zeroSource_range sessionAt_2_reachable).
Defined.

(** X2. In every reachable state of a started session both difficulty cells
    hold newDiff(score), a value between 1.5 and 20, and the grid shows
    exactly one odd tile: every cell other than the target is one and the
    same base colour, and the target cell has the hue and saturation of that
    colour and a different lightness, between 10 and 89. *)
Theorem odd_tile_invariant (random : nat -> R) (st : State) :
  (forall k, 0 <= random k < 1) ->
  reachable random st ->
  activityState st <> idle ->
  difficulty st = newDiff (score st) /\
  lastDiff st = newDiff (score st) /\
  1.5 <= lastDiff st <= 20 /\
  exists base c : ColorHSL,
    (forall j : Z, (0 <= j < 25)%Z -> j <> targetIndex st ->
       array_get (grid st) j = Some base) /\
    array_get (grid st) (targetIndex st) = Some c /\
    c <> base /\
    h c = h base /\ s c = s base /\
    l c <> l base /\
    10 <= l c <= 89.
Proof.
  intros Hrange Hreach Hni.
  pose proof (reachable_wf random Hrange st Hreach) as (Hs & _).
  pose proof (reachable_levelInv random Hrange st Hreach) as Hinv.
  destruct (levelInv_started st Hinv Hni)
    as (Hd & Hl & _ & base & c & Hb & Hothers & Htarget & Hh & Hsat & Hshift).
  pose proof (newDiff_range (score st) Hs) as Hnd.
  rewrite <- Hl in Hnd.
  split; [exact Hd|]. split; [exact Hl|]. split; [exact Hnd|].
  exists base, c.
  split; [exact Hothers|]. split; [exact Htarget|].
  split.
  { intros E. rewrite E in Hshift. lra. }
  split; [exact Hh|]. split; [exact Hsat|].
  destruct Hshift as [E | E]; rewrite E; split; lra.
Qed.

Lemma odd_tile_invariant_witness :
  (forall k, 0 <= zeroSource k < 1) /\
  reachable zeroSource (sessionAt 2) /\
  activityState (sessionAt 2) <> idle /\
  1.5 <= lastDiff (sessionAt 2) <= 20.
Proof.
  assert (Hni : activityState (sessionAt 2) <> idle) by discriminate.
  split; [exact zeroSource_range|]. split; [exact sessionAt_2_reachable|].
  split; [exact Hni|].
  apply (odd_tile_invariant zeroSource (sessionAt 2)
           zeroSource_range sessionAt_2_reachable Hni).
Defined.

(** X3. The difficulty bar never leaves its track: in every reachable state
    its width (lastDiff / INITIAL_DIFF) * 100 is between 0 and 100 percent,
    and in a started session it is at least 7.5 percent. *)
Theorem barWidth_range (random : nat -> R) (st : State) :
  (forall k, 0 <= random k < 1) ->
  reachable random st ->
  0 <= barWidth st <= 100 /\
  (activityState st <> idle -> 7.5 <= barWidth st).
Proof.
  intros Hrange Hreach.
  pose proof (reachable_wf random Hrange st Hreach) as (Hs & _).
  pose proof (reachable_levelInv random Hrange st Hreach) as Hinv.
  unfold barWidth, INITIAL_DIFF.
  destruct (activityState st) eqn:Hact.
  - unfold levelInv in Hinv. rewrite Hact in Hinv. rewrite Hinv. cbn.
    split; [lra | intros Hc; contradiction].
  - assert (Hni : activityState st <> idle) by congruence.
    destruct (levelInv_started st Hinv Hni) as (_ & Hl & _).
    pose proof (newDiff_range (score st) Hs) as Hnd. rewrite <- Hl in Hnd.
    split; [lra | intros _; lra].
  - assert (Hni : activityState st <> idle) by congruence.
    destruct (levelInv_started st Hinv Hni) as (_ & Hl & _).
    pose proof (newDiff_range (score st) Hs) as Hnd. rewrite <- Hl in Hnd.
    split; [lra | intros _; lra].
Qed.

Lemma barWidth_range_witness :
  (forall k, 0 <= zeroSource k < 1) /\
  reachable zeroSource (sessionAt 2) /\
  0 <= barWidth (sessionAt 2) <= 100.
Proof.
  split; [exact zeroSource_range|]. split; [exact sessionAt_2_reachable|].
  apply (barWidth_range zeroSource (sessionAt 2)
           zeroSource_range sessionAt_2_reachable).
Defined.

(** ** Starting and scoring *)

(** X4. Starting a game gives the same session whatever the state before:
    score 0, 60 seconds, active, both difficulty cells at 20, and a level
    built from the next five random draws. Nothing of the previous state
    survives. *)
Theorem startGame_fresh (random : nat -> R) (st1 st2 : State) (n : nat) :
  startGame random st1 n = startGame random st2 n /\
  score (fst (startGame random st1 n)) = 0%Z /\
  timeLeft (fst (startGame random st1 n)) = 60%Z /\
  activityState (fst (startGame random st1 n)) = active /\
  difficulty (fst (startGame random st1 n)) = 20 /\
  lastDiff (fst (startGame random st1 n)) = 20 /\
  snd (startGame random st1 n) = (n + 5)%nat.
Proof.
  split; [reflexivity|].
  unfold startGame, generateLevel. rewrite newDiff_0.
  rewrite generateLevelWith_unfold. cbn [fst snd].
  repeat split; try reflexivity. lia.
Qed.



(** X6. No click ever changes isActive or isGameOver: whatever the index and
    the state, the activity state after handleBlockClick is the one before.
    Only startGame and the timer move a session between idle, active and
    over. *)
Theorem click_keeps_activity (random : nat -> R) (index : Z) (st : State) (n : nat) :
  isActive (fst (handleBlockClick random index st n)) = isActive st /\
  isGameOver (fst (handleBlockClick random index st n)) = isGameOver st /\
  activityState (fst (handleBlockClick random index st n)) = activityState st.
Proof.
  assert (H : isActive (fst (handleBlockClick random index st n)) = isActive st /\
              isGameOver (fst (handleBlockClick random index st n)) = isGameOver st).
  { unfold handleBlockClick.
    destruct (negb (isActive st) || isGameOver st); [split; reflexivity|].
    destruct (index =? targetIndex st)%Z; [|split; reflexivity].
    unfold generateLevel.
    destruct (level_frame random (newDiff (score st + 1))
                (setScore (score st + 1) st) n) as (_ & _ & Ea & Eg & _).
    split; assumption. }
  destruct H as [Ha Hg]. split; [exact Ha|]. split; [exact Hg|].
  unfold activityState. rewrite Ha, Hg. reflexivity.
Qed.

(** X7. Between two starts the score never goes down and grows by at most
    one per command, and the clock never goes up and loses at most three
    seconds per command; the score grows exactly when the command is a click
    on the target tile of an active session. *)
Theorem exec_progress (random : nat -> R) (c : Command) (st : State) (n : nat) :
  wf st ->
  c <> CmdStart ->
  let st' := fst (exec random c st n) in
  (score st <= score st' <= score st + 1)%Z /\
  (timeLeft st - 3 <= timeLeft st' <= timeLeft st)%Z /\
  (score st' = (score st + 1)%Z <->
   activityState st = active /\ c = CmdClick (targetIndex st)).
Proof.
  intros Hwf Hc st'. subst st'.
  pose proof Hwf as (Hs & Ht & Hf & _).
  destruct c as [| |index]; [contradiction | |]; cbn [exec ret fst].
  - assert (Hsc : score (tick st) = score st /\
                  (timeLeft st - 3 <= timeLeft (tick st) <= timeLeft st)%Z).
    { unfold tick, timerRunning, timerCallback.
      destruct (isActive st); cbn [andb]; [|lia].
      destruct (Z.ltb_spec 0 (timeLeft st)); [|lia].
      destruct (Z.leb_spec (timeLeft st) 1); cbn; lia. }
    destruct Hsc as [Hsc Htl]. rewrite Hsc.
    split; [lia|]. split; [exact Htl|].
    split; [lia | intros [_ Hd]; discriminate Hd].
  - destruct (activityState st) eqn:Hact.
    + rewrite click_inactive by (apply wf_not_active; [assumption | congruence]).
      cbn [fst]. split; [lia|]. split; [lia|].
      split; [lia | intros [Hd _]; discriminate Hd].
    + destruct (Z.eq_dec index (targetIndex st)) as [E | E].
      * rewrite click_right by assumption. unfold generateLevel.
        destruct (level_frame random (newDiff (score st + 1))
                    (setScore (score st + 1) st) n) as (Es & Et & _).
        rewrite Es, Et. cbn. split; [lia|]. split; [lia|].
        split; [intros _; split; [reflexivity | congruence] | reflexivity].
      * rewrite click_wrong by assumption. cbn.
        split; [lia|]. split; [lia|].
        split; [lia | intros [_ Hd]; congruence].
    + rewrite click_inactive by (apply wf_not_active; [assumption | congruence]).
      cbn [fst]. split; [lia|]. split; [lia|].
      split; [lia | intros [Hd _]; discriminate Hd].
Qed.

Lemma exec_progress_witness :
  wf (sessionAt 60) /\ CmdClick 7 <> CmdStart /\
  (timeLeft (sessionAt 60) - 3
   <= timeLeft (fst (exec zeroSource (CmdClick 7) (sessionAt 60) 5%nat))
   <= timeLeft (sessionAt 60))%Z.
Proof.
  assert (Hwf : wf (sessionAt 60)) by (apply wf_sessionAt; lia).
  assert (Hc : CmdClick 7 <> CmdStart) by discriminate.
  split; [exact Hwf|]. split; [exact Hc|].
  apply (exec_progress zeroSource (CmdClick 7) (sessionAt 60) 5%nat Hwf Hc).
Defined.

(** ** The clock on its own *)

Lemma tick_last_second (st : State) :
  isActive st = true -> timeLeft st = 1%Z ->
  tick st = setTimeLeft 0 (setIsGameOver true (setIsActive false st)).
Proof.
  intros Ha Ht. unfold tick, timerRunning, timerCallback.
  rewrite Ha, Ht. reflexivity.
Qed.

Lemma tick_earlier_second (st : State) :
  isActive st = true -> (1 < timeLeft st)%Z ->
  tick st = setTimeLeft (timeLeft st - 1) st.
Proof.
  intros Ha Ht. unfold tick, timerRunning, timerCallback. rewrite Ha.
  destruct (Z.ltb_spec 0 (timeLeft st)); [|lia].
  destruct (Z.leb_spec (timeLeft st) 1); [lia | reflexivity].
Qed.

(** X8. Left alone, an active session with t > 0 seconds counts down one
    second per tick: after k ticks the time left is max(0, t - k), the
    session is still active while k < t and over from the t-th tick on, and
    score, grid and target index are as they were. *)
Theorem countdown (k : nat) :
  forall st : State,
    activityState st = active ->
    (0 < timeLeft st)%Z ->
    timeLeft (ticks k st) = Z.max 0 (timeLeft st - Z.of_nat k) /\
    activityState (ticks k st)
    = (if (Z.of_nat k <? timeLeft st)%Z then active else over) /\
    score (ticks k st) = score st /\
    grid (ticks k st) = grid st /\
    targetIndex (ticks k st) = targetIndex st.
Proof.
  induction k as [|k IH]; intros st Hact Hpos.
  - cbn [ticks]. destruct (Z.ltb_spec (Z.of_nat 0) (timeLeft st)); [|lia].
    repeat split; try reflexivity; [lia | exact Hact].
  - cbn [ticks]. pose proof Hact as Hact'.
    apply activity_active in Hact' as [Ha Hg].
    destruct (Z.eq_dec (timeLeft st) 1) as [E1 | E1].
    + rewrite (tick_last_second st Ha E1).
      rewrite tick_stopped_forever by reflexivity.
      destruct (Z.ltb_spec (Z.of_nat (S k)) (timeLeft st)); [lia|].
      cbn [timeLeft score grid targetIndex setTimeLeft setIsGameOver
           setIsActive].
      repeat split; try reflexivity. lia.
    + rewrite (tick_earlier_second st Ha) by lia.
      destruct (IH (setTimeLeft (timeLeft st - 1) st))
        as (Ht & Hs & Hsc & Hgr & Htg); [exact Hact | cbn; lia |].
      rewrite Ht, Hs, Hsc, Hgr, Htg.
      cbn [timeLeft score grid targetIndex setTimeLeft].
      destruct (Z.ltb_spec (Z.of_nat k) (timeLeft st - 1));
        destruct (Z.ltb_spec (Z.of_nat (S k)) (timeLeft st)); try lia;
        repeat split; try reflexivity; lia.
Qed.

Lemma countdown_witness :
  activityState (sessionAt 60) = active /\
  (0 < timeLeft (sessionAt 60))%Z /\
  timeLeft (ticks 60 (sessionAt 60)) = Z.max 0 (timeLeft (sessionAt 60) - 60).
Proof.
  assert (Hpos : (0 < timeLeft (sessionAt 60))%Z) by (cbn; lia).
  split; [reflexivity|]. split; [exact Hpos|].
  apply (countdown 60 (sessionAt 60) eq_refl Hpos).
Defined.

(** X9. A session that is idle or over ignores everything but a start: any
    sequence of ticks and clicks leaves every state cell as it is and draws
    no random number. *)
Theorem inactive_ignores_commands (random : nat -> R) (cs : list Command) :
  forall (st : State) (n : nat),
    wf st ->
    activityState st <> active ->
    ~ In CmdStart cs ->
    run random cs st n = (st, n).
Proof.
  induction cs as [|c cs IH]; intros st n Hwf Hna Hnot; [reflexivity|].
  pose proof (wf_not_active st Hwf Hna) as Ha.
  assert (E : exec random c st n = (st, n)).
  { destruct c as [| |index]; cbn [exec].
    - exfalso. apply Hnot. left. reflexivity.
    - unfold ret. rewrite tick_not_running; [reflexivity|].
      unfold timerRunning. rewrite Ha. reflexivity.
    - apply click_inactive. exact Ha. }
  rewrite run_cons, E. cbn [fst snd].
  apply IH; [assumption | assumption |].
  intros Hin. apply Hnot. right. exact Hin.
Qed.

Lemma inactive_ignores_commands_witness :
  wf initialState /\ activityState initialState <> active /\
  ~ In CmdStart [CmdClick 3; CmdTick] /\
  run zeroSource [CmdClick 3; CmdTick] initialState 0%nat = (initialState, 0%nat).
Proof.
  assert (Hna : activityState initialState <> active) by discriminate.
  assert (Hnot : ~ In CmdStart [CmdClick 3; CmdTick]).
  { intros [H | [H | H]]; [discriminate H | discriminate H | exact H]. }
  split; [exact wf_initialState|]. split; [exact Hna|]. split; [exact Hnot|].
  apply (inactive_ignores_commands zeroSource [CmdClick 3; CmdTick]
           initialState 0%nat wf_initialState Hna Hnot).
Defined.

(** ** Where the difficulty curve lands *)

Lemma log2_lt (x y : R) : 0 < x -> x < y -> Math_log2 x < Math_log2 y.
Proof.
  intros Hx Hlt. unfold Math_log2, Rdiv.
  apply Rmult_lt_compat_r.
  - apply Rinv_0_lt_compat, ln2_pos.
  - now apply ln_increasing.
Qed.

Lemma log2_39 : Math_log2 39 < 37 / 7.
Proof.
  pose proof ln2_pos as Hp.
  assert (H : 7 * ln 39 < 37 * ln 2).
  { replace (7 * ln 39) with (ln (39 ^ 7))
      by (rewrite ln_pow by lra; simpl INR; lra).
    replace (37 * ln 2) with (ln (2 ^ 37))
      by (rewrite ln_pow by lra; simpl INR; lra).
    apply ln_increasing; lra. }
  unfold Math_log2.
  apply (Rmult_lt_reg_r (ln 2)); [assumption|].
  replace (ln 39 / ln 2 * ln 2) with (ln 39) by (field; lra).
  lra.
Qed.

Lemma newDiff_above_floor (sc : Z) :
  (0 <= sc < 39)%Z ->
  newDiff sc = 20 - 3.5 * Math_log2 (IZR sc + 1) /\ 1.5 < newDiff sc.
Proof.
  intros [H0 H39]. rewrite newDiff_unfold.
  assert (Hlog : Math_log2 (IZR sc + 1) <= Math_log2 39).
  { apply IZR_le in H0. assert (H38 : (sc <= 38)%Z) by lia.
    apply IZR_le in H38. apply log2_le; lra. }
  pose proof log2_39.
  rewrite Rmax_right by lra. split; [reflexivity | lra].
Qed.

(** X10. The difficulty curve reaches its floor exactly at score 39: for a
    score >= 0 the difference is MIN_DIFF if and only if the score is at
    least 39. Below 39 the difference is 20 - 3.5 * log2(score + 1), above the
    floor, and every later score gives a strictly smaller difference. *)
Theorem newDiff_floor_exact (sc : Z) :
  (0 <= sc)%Z ->
  (newDiff sc = MIN_DIFF <-> (39 <= sc)%Z) /\
  ((sc < 39)%Z ->
   newDiff sc = 20 - 3.5 * Math_log2 (IZR sc + 1) /\
   forall sc' : Z, (sc < sc')%Z -> newDiff sc' < newDiff sc).
Proof.
  intros H0. split.
  - split; [|apply newDiff_floor].
    intros E. destruct (Z.lt_ge_cases sc 39) as [Hlt | Hge]; [|exact Hge].
    destruct (newDiff_above_floor sc (conj H0 Hlt)) as [_ Hgt].
    unfold MIN_DIFF in E. lra.
  - intros Hlt.
    destruct (newDiff_above_floor sc (conj H0 Hlt)) as [Elin Hgt].
    split; [exact Elin|].
    intros sc' Hsc'.
    destruct (Z.lt_ge_cases sc' 39) as [Hlt' | Hge'].
    + destruct (newDiff_above_floor sc') as [Elin' _]; [lia|].
      rewrite Elin, Elin'.
      assert (Hlog : Math_log2 (IZR sc + 1) < Math_log2 (IZR sc' + 1)).
      { apply IZR_le in H0. apply IZR_lt in Hsc'. apply log2_lt; lra. }
      lra.
    + rewrite (newDiff_floor sc' Hge'). unfold MIN_DIFF. exact Hgt.
Qed.

Lemma newDiff_floor_exact_witness :
  (0 <= 39)%Z /\ (newDiff 39 = MIN_DIFF <-> (39 <= 39)%Z).
Proof.
  split; [lia|].
  apply (newDiff_floor_exact 39); lia.
Defined.

(** ** The report and the celebration *)

Lemma grade_cases (sc : Z) :
  ((40 < sc)%Z /\ grade sc = "S"%string) \/
  ((30 < sc <= 40)%Z /\ grade sc = "A"%string) \/
  ((20 < sc <= 30)%Z /\ grade sc = "B"%string) \/
  ((sc <= 20)%Z /\ grade sc = "C"%string).
Proof.
  unfold grade.
  destruct (Z.ltb_spec 40 sc); [left; split; [lia | reflexivity]|].
  destruct (Z.ltb_spec 30 sc); [right; left; split; [lia | reflexivity]|].
  destruct (Z.ltb_spec 20 sc); [right; right; left; split; [lia | reflexivity]|].
  right; right; right. split; [lia | reflexivity].
Qed.

(** X11. The vision grade is S exactly for scores above 40, A exactly for
    31 to 40, B exactly for 21 to 30 and C exactly for 20 and below; a higher
    score never gives a worse grade; and a grade S is only earned on levels
    at the minimum difference: the level on which the last point of a score
    above 40 was made had difference MIN_DIFF. *)
Theorem grade_spec (sc : Z) :
  (grade sc = "S"%string <-> (40 < sc)%Z) /\
  (grade sc = "A"%string <-> (30 < sc <= 40)%Z) /\
  (grade sc = "B"%string <-> (20 < sc <= 30)%Z) /\
  (grade sc = "C"%string <-> (sc <= 20)%Z) /\
  (forall sc' : Z, (sc <= sc')%Z ->
     (gradeRank (grade sc) <= gradeRank (grade sc'))%nat) /\
  (grade sc = "S"%string -> newDiff (sc - 1) = MIN_DIFF).
Proof.
  assert (HS : grade sc = "S"%string <-> (40 < sc)%Z).
  { destruct (grade_cases sc) as [[H E] | [[H E] | [[H E] | [H E]]]];
      rewrite E; split; intros H'; try discriminate H'; try lia; reflexivity. }
  split; [exact HS|].
  split.
  { destruct (grade_cases sc) as [[H E] | [[H E] | [[H E] | [H E]]]];
      rewrite E; split; intros H'; try discriminate H'; try lia; reflexivity. }
  split.
  { destruct (grade_cases sc) as [[H E] | [[H E] | [[H E] | [H E]]]];
      rewrite E; split; intros H'; try discriminate H'; try lia; reflexivity. }
  split.
  { destruct (grade_cases sc) as [[H E] | [[H E] | [[H E] | [H E]]]];
      rewrite E; split; intros H'; try discriminate H'; try lia; reflexivity. }
  split.
  - intros sc' Hle.
    destruct (grade_cases sc) as [[H E] | [[H E] | [[H E] | [H E]]]];
      destruct (grade_cases sc') as [[H' E'] | [[H' E'] | [[H' E'] | [H' E']]]];
      rewrite E, E'; cbn; lia.
  - intros E. apply HS in E. apply newDiff_floor. lia.
Qed.

(** X12. In a well-formed state handleBlockClick calls confetti exactly when
    the session is active, the click hits the target, and the score after the
    click is a positive multiple of 10. *)
Theorem confetti_milestone (random : nat -> R) (index : Z) (st : State) (n : nat) :
  wf st ->
  (confettiFired index st = true <->
   activityState st = active /\ index = targetIndex st /\
   exists k : Z, (0 < k)%Z /\
     score (fst (handleBlockClick random index st n)) = (10 * k)%Z).
Proof.
  intros Hwf. pose proof Hwf as (Hs & _ & Hf & _).
  unfold confettiFired.
  destruct (activityState st) eqn:Hact.
  - rewrite (wf_not_active st Hwf) by congruence. cbn.
    split; [discriminate | intros [Hd _]; discriminate Hd].
  - pose proof Hact as Hact'. apply activity_active in Hact' as [Ha Hg].
    rewrite Ha, Hg. cbn [negb orb].
    destruct (Z.eqb_spec index (targetIndex st)) as [E | E].
    + assert (Esc : score (fst (handleBlockClick random index st n))
                    = (score st + 1)%Z).
      { rewrite click_right by assumption. unfold generateLevel.
        destruct (level_frame random (newDiff (score st + 1))
                    (setScore (score st + 1) st) n) as (Es & _).
        exact Es. }
      rewrite Esc, Z.eqb_eq, Z.rem_mod_nonneg by lia.
      split.
      * intros Hrem. split; [reflexivity|]. split; [exact E|].
        exists ((score st + 1) / 10)%Z.
        pose proof (Z.div_mod (score st + 1) 10). lia.
      * intros (_ & _ & k & Hk & Hk'). rewrite Hk'.
        rewrite Z.mul_comm. apply Z.mod_mul. lia.
    + split; [discriminate | intros (_ & Hd & _); contradiction].
  - rewrite (wf_not_active st Hwf) by congruence. cbn.
    split; [discriminate | intros [Hd _]; discriminate Hd].
Qed.

Lemma confetti_milestone_witness :
  wf (mkState 9 30 true false gridZero 0 (newDiff 9) (newDiff 9)) /\
  exists k : Z, (0 < k)%Z /\
    score (fst (handleBlockClick zeroSource 0
                  (mkState 9 30 true false gridZero 0 (newDiff 9) (newDiff 9))
                  0%nat)) = (10 * k)%Z.
Proof.
  assert (Hwf : wf (mkState 9 30 true false gridZero 0 (newDiff 9) (newDiff 9))).
  { unfold wf, INITIAL_TIME, GRID_SIZE. cbn.
    repeat split; try lia; try reflexivity. }
  split; [exact Hwf|].
  apply (proj1 (confetti_milestone zeroSource 0
                  (mkState 9 30 true false gridZero 0 (newDiff 9) (newDiff 9))
                  0%nat Hwf) eq_refl).
Defined.

(** ** The clock of a session that ran out of time on a click *)

Lemma run_app (random : nat -> R) (cs1 cs2 : list Command) :
  forall (st : State) (n : nat),
    run random (cs1 ++ cs2) st n
    = run random cs2 (fst (run random cs1 st n)) (snd (run random cs1 st n)).
Proof.
  induction cs1 as [|c cs1 IH]; intros st n; [reflexivity|].
  cbn [app]. rewrite !run_cons. apply IH.
Qed.

Lemma sessionAt_0_reached :
  run zeroSource (CmdStart :: repeat CmdTick 58 ++ [CmdClick 1])
      initialState 0%nat
  = (sessionAt 0, 5%nat).
Proof.
  rewrite run_cons, exec_start, startGame_zeroSource.
  change (run zeroSource (repeat CmdTick 58 ++ [CmdClick 1]) (sessionAt 60) 5%nat
          = (sessionAt 0, 5%nat)).
  rewrite run_app, run_ticks, ticks_sessionAt by lia.
  replace (60 - Z.of_nat 58)%Z with 2%Z by reflexivity.
  reflexivity.
Qed.

(** C7, the part that fails. Start from zeroSource, let 58 seconds pass and
    click tile 1: the session is active with 0 seconds. A tick there changes
    nothing: the time is not one less, it is 0, and the session is not
    over. *)
Lemma tick_stuck_at_zero :
  run zeroSource (CmdStart :: repeat CmdTick 58 ++ [CmdClick 1])
      initialState 0%nat
  = (sessionAt 0, 5%nat) /\
  activityState (sessionAt 0) = active /\
  tick (sessionAt 0) = sessionAt 0 /\
  timeLeft (tick (sessionAt 0)) <> (timeLeft (sessionAt 0) - 1)%Z /\
  timeLeft (tick (sessionAt 0)) = 0%Z /\
  activityState (tick (sessionAt 0)) <> over.
Proof.
  split; [exact sessionAt_0_reached|].
  split; [reflexivity|]. split; [reflexivity|].
  split; [discriminate|]. split; [reflexivity | discriminate].
Qed.

(** ** Rounding of the lightness shift *)

#[local] Set Warnings "-inexact-float".

